(** * urlshort: redirect handlers over a path-to-URL table

    A shallow embedding of the Go package [urlshort] (handler.go and
    database.go) together with the fixtures of handlers_test.go, and the
    properties of its handlers, table builder and record store access. *)

From Stdlib Require Import ZArith Ascii.
From stdpp Require Import gmap strings list fin_maps.

Local Open Scope string_scope.
Local Open Scope Z_scope.

(** ** Go base types *)

(** A Go [error] value, identified by its message; [nil] is [None] of
    [option error]. *)
Definition error : Type := string.

(** [[]byte]. *)
Definition bytes : Type := list Byte.byte.

(** The conversion [[]byte(s)] of a string. *)
Definition bytes_of (s : string) : bytes := String.list_byte_of_string s.

(** [context.Context]; the model keeps the value and has no clock. *)
Inductive context_Context : Type :=
  | context_Background
  | context_WithTimeout (parent : context_Context) (seconds : Z).

(** ** The parts of the Go standard library the package touches

    [strings], [path], [net/url] and [net/http] are not part of the
    repository.  The definitions below follow the library functions the
    package reaches through [http.Redirect], byte for byte on Go strings. *)

Module go_strings.
(** [strings.Contains(s, c)] for a one-byte [c]. *)
Fixpoint contains (c : ascii) (s : string) : bool :=
  match s with
  | EmptyString => false
  | String a rest => Ascii.eqb a c || contains c rest
  end.

(** [s[:i], s[i:]] for [i] the first index of [c] in [s]; [s] and the
    empty string when [c] does not occur. *)
Fixpoint break (c : ascii) (s : string) : string * string :=
  match s with
  | EmptyString => (EmptyString, EmptyString)
  | String a rest =>
      if Ascii.eqb a c then (EmptyString, s)
      else let '(before, from) := break c rest in (String a before, from)
  end.

(** [s[:i], s[i+1:]] for [i] the last index of [c] in [s], if any. *)
Fixpoint break_last (c : ascii) (s : string) : option (string * string) :=
  match s with
  | EmptyString => None
  | String a rest =>
      match break_last c rest with
      | Some (before, after) => Some (String a before, after)
      | None => if Ascii.eqb a c then Some (EmptyString, rest) else None
      end
  end.

(** [s[1:]] of a non-empty string. *)
Definition tail (s : string) : string :=
  match s with EmptyString => EmptyString | String _ rest => rest end.

Definition HasPrefix (s prefix : string) : bool := String.prefix prefix s.

(** [strings.HasSuffix(s, c)] for a one-byte [c]. *)
Fixpoint HasSuffix_byte (s : string) (c : ascii) : bool :=
  match s with
  | EmptyString => false
  | String a EmptyString => Ascii.eqb a c
  | String _ rest => HasSuffix_byte rest c
  end.

(** The elements between the occurrences of [c]. *)
Fixpoint split_on (c : ascii) (s : string) : list string :=
  match s with
  | EmptyString => [EmptyString]
  | String a rest =>
      if Ascii.eqb a c then EmptyString :: split_on c rest
      else match split_on c rest with
           | x :: xs => String a x :: xs
           | [] => [String a EmptyString]
           end
  end.

Fixpoint join (sep : string) (parts : list string) : string :=
  match parts with
  | [] => EmptyString
  | [x] => x
  | x :: rest => x ++ sep ++ join sep rest
  end.

(** Every byte is below [utf8.RuneSelf]. *)
Fixpoint is_ascii (s : string) : bool :=
  match s with
  | EmptyString => true
  | String c rest => Nat.ltb (nat_of_ascii c) 128 && is_ascii rest
  end.
End go_strings.

Module path.
(** The directory part of [path.Split]: up to and including the last
    slash. *)
Definition Split_dir (p : string) : string :=
  match go_strings.break_last "/" p with
  | Some (before, _) => before ++ "/"
  | None => EmptyString
  end.

(** One element of [path.Clean]: empty and [.] elements are dropped;
    [..] removes the element before it, is dropped at the root, and is
    kept where a path that is not rooted has nothing left to remove. *)
Definition Clean_step (rooted : bool) (stack : list string) (element : string)
  : list string :=
  if decide (element = "" ∨ element = ".") then stack
  else if decide (element = "..") then
    match stack with
    | top :: below => if decide (top = "..") then element :: stack else below
    | [] => if rooted then [] else [element]
    end
  else element :: stack.

(** [path.Clean]. *)
Definition Clean (p : string) : string :=
  let rooted := go_strings.HasPrefix p "/" in
  let stack := foldl (Clean_step rooted) [] (go_strings.split_on "/" p) in
  let joined := go_strings.join "/" (rev stack) in
  if rooted then "/" ++ joined
  else if decide (joined = "") then "." else joined.
End path.

Module net_url.
(** [url.URL], cut down to the two components a request target splits
    into. *)
Record URL : Type := { Path : string; RawQuery : string }.

Definition is_letter (c : ascii) : bool :=
  (Nat.leb 97 (nat_of_ascii c) && Nat.leb (nat_of_ascii c) 122)
  || (Nat.leb 65 (nat_of_ascii c) && Nat.leb (nat_of_ascii c) 90).

Definition is_digit (c : ascii) : bool :=
  Nat.leb 48 (nat_of_ascii c) && Nat.leb (nat_of_ascii c) 57.

Definition ishex (c : ascii) : bool :=
  is_digit c
  || (Nat.leb 97 (nat_of_ascii c) && Nat.leb (nat_of_ascii c) 102)
  || (Nat.leb 65 (nat_of_ascii c) && Nat.leb (nat_of_ascii c) 70).

Fixpoint stringContainsCTLByte (s : string) : bool :=
  match s with
  | EmptyString => false
  | String c rest =>
      Nat.ltb (nat_of_ascii c) 32 || Nat.eqb (nat_of_ascii c) 127
      || stringContainsCTLByte rest
  end.

(** [getscheme] returns the empty scheme and no error: the text does not
    start with letters, digits, [+], [-] or [.] followed by a colon, and
    does not start with a colon. *)
Fixpoint no_scheme_from (first : bool) (s : string) : bool :=
  match s with
  | EmptyString => true
  | String c rest =>
      if is_letter c then no_scheme_from false rest
      else if is_digit c || Ascii.eqb c "+" || Ascii.eqb c "-" || Ascii.eqb c "." then
        if first then true else no_scheme_from false rest
      else if Ascii.eqb c ":" then false
      else true
  end.

(** [unescape] reports no error in the modes of a path, a fragment and a
    user name: every [%] is followed by two hexadecimal digits. *)
Fixpoint valid_escapes (s : string) : bool :=
  match s with
  | EmptyString => true
  | String c rest =>
      if Ascii.eqb c "%" then
        match rest with
        | String a (String b rest') => ishex a && ishex b && valid_escapes rest'
        | _ => false
        end
      else valid_escapes rest
  end.

Fixpoint validUserinfo (s : string) : bool :=
  match s with
  | EmptyString => true
  | String c rest =>
      (is_letter c || is_digit c || go_strings.contains c "-._:~!$&'()*+,;=%@")
      && validUserinfo rest
  end.

(** [parseAuthority] accepts the user information in front of the [@]. *)
Definition userinfo_ok (userinfo : string) : bool :=
  validUserinfo userinfo
  && (if go_strings.contains ":" userinfo then
        let '(username, from) := go_strings.break ":" userinfo in
        valid_escapes username && valid_escapes (go_strings.tail from)
      else valid_escapes userinfo).

(** [parseAuthority] succeeds and leaves [Host] empty: the host part,
    after the last [@], is empty.  A host part that is not empty gives an
    error or a [Host] that is not empty. *)
Definition empty_host_authority (authority : string) : bool :=
  match go_strings.break_last "@" authority with
  | Some (userinfo, host) => if decide (host = "") then userinfo_ok userinfo else false
  | None => if decide (authority = "") then true else false
  end.

(** [parse(u, false)] succeeds with an empty [Scheme] and an empty [Host],
    for [u] the text in front of the fragment. *)
Definition relative_reference (u : string) : bool :=
  negb (stringContainsCTLByte u)
  && (if decide (u = "*") then true
      else
        no_scheme_from true u
        && let rest := (go_strings.break "?" u).1 in
           (go_strings.HasPrefix rest "/"
            || negb (go_strings.contains ":" (go_strings.break "/" rest).1))
           && if go_strings.HasPrefix rest "//" && negb (go_strings.HasPrefix rest "///")
              then
                let '(authority, p) :=
                  go_strings.break "/" (go_strings.tail (go_strings.tail rest)) in
                empty_host_authority authority && valid_escapes p
              else valid_escapes rest).

(** [url.Parse(rawurl)] returns no error and a URL whose [Scheme] and
    [Host] are both empty: the condition under which [http.Redirect]
    rewrites its destination. *)
Definition Parse_relative (rawurl : string) : bool :=
  let '(u, from) := go_strings.break "#" rawurl in
  relative_reference u && valid_escapes (go_strings.tail from).
End net_url.

Module net_http.
Definition StatusOK : Z := 200.
Definition StatusFound : Z := 302.

Record Request : Type := { Method : string; URL : net_url.URL }.

(** The response sink.  A handler is a procedure that mutates it, so it
    is threaded through as state; the fields are those of
    [httptest.ResponseRecorder] that the tests read back, and the flag
    that tells whether the status was already written. *)
Record ResponseWriter : Type :=
  { Code : Z; wroteHeader : bool; HeaderMap : gmap string (list string); Body : string }.

(** [httptest.NewRecorder()]. *)
Definition NewRecorder : ResponseWriter :=
  {| Code := StatusOK; wroteHeader := false; HeaderMap := ∅; Body := "" |}.

(** [h.Set(key, value)] on the writer's header map. *)
Definition Header_Set (w : ResponseWriter) (key value : string) : ResponseWriter :=
  {| Code := Code w; wroteHeader := wroteHeader w;
     HeaderMap := <[key := [value]]> (HeaderMap w); Body := Body w |}.

(** [w.WriteHeader(code)]: the first status written stays. *)
Definition WriteHeader (w : ResponseWriter) (code : Z) : ResponseWriter :=
  if wroteHeader w then w
  else {| Code := code; wroteHeader := true; HeaderMap := HeaderMap w; Body := Body w |}.

(** [fmt.Fprint(w, s)]: a first write writes status 200, then the text is
    added to the body.  The content type the recorder derives from the
    text is left out. *)
Definition Fprint (w : ResponseWriter) (s : string) : ResponseWriter :=
  let w := WriteHeader w StatusOK in
  {| Code := Code w; wroteHeader := wroteHeader w; HeaderMap := HeaderMap w;
     Body := Body w ++ s |}.

Definition hexdigit (n : nat) : ascii :=
  if Nat.ltb n 10 then ascii_of_nat (48 + n) else ascii_of_nat (87 + n).

(** [hexEscapeNonASCII]: every byte from 128 on becomes [%] and its two
    lower-case hexadecimal digits. *)
Fixpoint hexEscapeNonASCII (s : string) : string :=
  match s with
  | EmptyString => EmptyString
  | String c rest =>
      if Nat.ltb (nat_of_ascii c) 128 then String c (hexEscapeNonASCII rest)
      else String "%" (String (hexdigit (nat_of_ascii c / 16))
                         (String (hexdigit (nat_of_ascii c mod 16))
                            (hexEscapeNonASCII rest)))
  end.

(** The destination as [http.Redirect] rewrites it.  A destination that
    parses as a URL without scheme and host is made absolute: one that
    does not start with a slash is put behind the directory of the request
    path; the part in front of the first [?] is cleaned with [path.Clean],
    a trailing slash is kept, and the query is put back.  Any other
    destination is left as it is. *)
Definition redirect_target (oldpath url : string) : string :=
  if net_url.Parse_relative url then
    let oldpath := if decide (oldpath = "") then "/" else oldpath in
    let url :=
      if decide (url = "") then path.Split_dir oldpath ++ url
      else if negb (go_strings.HasPrefix url "/") then path.Split_dir oldpath ++ url
      else url in
    let '(url, query) := go_strings.break "?" url in
    let trailing := go_strings.HasSuffix_byte url "/" in
    let url := path.Clean url in
    let url :=
      if trailing && negb (go_strings.HasSuffix_byte url "/") then url ++ "/" else url in
    url ++ query
  else url.

(** [http.Redirect(w, r, url, code)], as far as the status and the
    [Location] header go: the header is set to the rewritten destination,
    escaped, and the status is written.  The [Content-Type] header and the
    short HTML body a GET or HEAD request gets in addition are left out. *)
Definition Redirect (w : ResponseWriter) (r : Request) (url : string) (code : Z)
  : ResponseWriter :=
  let url := redirect_target (net_url.Path (URL r)) url in
  WriteHeader (Header_Set w "Location" (hexEscapeNonASCII url)) code.

(** [http.HandlerFunc]. *)
Definition HandlerFunc : Type := ResponseWriter -> Request -> ResponseWriter.

(** The interface [http.Handler]: one method, [ServeHTTP]. *)
Class Handler (H : Type) : Type :=
  ServeHTTP : H -> ResponseWriter -> Request -> ResponseWriter.

(** [HandlerFunc] implements [Handler] by calling itself. *)
#[export] Instance HandlerFunc_Handler : Handler HandlerFunc := fun f => f.
End net_http.

Import net_http.

(** ** handler.go *)

(** [type Redirect struct { Path string; URL string }]. *)
Record Redirect : Type := { Path : string; URL : string }.

(** [interface{}] values of the dynamic types the package puts in one. *)
Inductive interface : Type :=
  | iface_nil
  | iface_Redirect (v : Redirect).

Section MapHandler.
Context {H : Type} `{!Handler H}.

Definition MapHandler (pathsToUrls : gmap string string) (fallback : H) : HandlerFunc :=
  fun w r =>
    let path := net_url.Path (net_http.URL r) in
    match pathsToUrls !! path with
    | Some url => net_http.Redirect w r url StatusFound
    | None => ServeHTTP fallback w r
    end.
End MapHandler.

(** [RedirectsToMap]: the [range] loop assigns [pathsToUrls[redirect.Path] =
    redirect.URL] record by record, starting from the empty map. *)
Definition RedirectsToMap (redirects : list Redirect) : gmap string string :=
  foldl (fun pathsToUrls redirect => <[Path redirect := URL redirect]> pathsToUrls)
        ∅ redirects.

(** [s[i] = v]: an index outside the slice panics ([None]). *)
Definition index_assign {A : Type} (s : list A) (i : nat) (v : A) : option (list A) :=
  if decide (i < length s)%nat then Some (<[i := v]> s) else None.

(** The loop [for i, v := range redirects { s[i] = v }], from index [i] on. *)
Fixpoint range_assign (i : nat) (redirects : list Redirect) (s : list interface)
  : option (list interface) :=
  match redirects with
  | [] => Some s
  | v :: rest =>
      match index_assign s i (iface_Redirect v) with
      | Some s' => range_assign (S i) rest s'
      | None => None
      end
  end.

(** [RedirectsToArrayInterface]; [make([]interface{}, n)] is [n] nil
    interfaces. *)
Definition RedirectsToArrayInterface (redirects : list Redirect) : option (list interface) :=
  let s := replicate (length redirects) iface_nil in
  range_assign 0 redirects s.

(** The two decoders.  [yaml.Unmarshal] and [json.Unmarshal] are external
    packages, taken as parameters: each receives the text and the current
    value of the slice behind the pointer, and gives back the value it left
    there and the error it returned.  A decoder may have written records
    before it fails. *)
Section Decoders.
Variable yaml_Unmarshal : bytes -> list Redirect -> list Redirect * option error.
Variable json_Unmarshal : bytes -> list Redirect -> list Redirect * option error.

Definition ParseYaml (yml : bytes) (v : list Redirect) : list Redirect * option error :=
  yaml_Unmarshal yml v.

Definition ParseJson (jsn : bytes) (v : list Redirect) : list Redirect * option error :=
  json_Unmarshal jsn v.

Context {H : Type} `{!Handler H}.

(** A Go result pair [(http.HandlerFunc, error)]; [nil] is [None]. *)
Definition YamlHandler (yml : bytes) (fallback : H) : option HandlerFunc * option error :=
  let redirects : list Redirect := [] in
  let '(redirects, err) := ParseYaml yml redirects in
  match err with
  | Some e => (None, Some e)
  | None =>
      let pathsToUrls := RedirectsToMap redirects in
      (Some (MapHandler pathsToUrls fallback), None)
  end.

Definition JsonHandler (json : bytes) (fallback : H) : option HandlerFunc * option error :=
  let redirects : list Redirect := [] in
  let '(redirects, err) := ParseJson json redirects in
  match err with
  | Some e => (None, Some e)
  | None =>
      let pathsToUrls := RedirectsToMap redirects in
      (Some (MapHandler pathsToUrls fallback), None)
  end.
End Decoders.

(** ** database.go *)

(** [bson.M], restricted to string-valued conditions on the fields of a
    stored record; [bson.M{}] is the empty map. *)
Abbreviation bson_M := (gmap string string).

Module mongo.
(** Modelled from the spec: the MongoDB driver is an external package.
    Section 6, "Record Store capability consumed": [find(filter)] gives an
    ordered sequence of Redirect Records or an error.  The state of the
    store is the ordered documents of each named collection, an error the
    server answers a query with while it is set, and an error met while
    the cursor is read out. *)
Record Database : Type :=
  { collections : gmap string (list Redirect);
    find_error : option error;
    read_error : option error }.

Record Cursor : Type := { batch : list Redirect; cursor_error : option error }.

Definition field (doc : Redirect) (key : string) : option string :=
  if decide (key = "path") then Some (Path doc)
  else if decide (key = "url") then Some (URL doc)
  else None.

(** A document matches a filter when it meets each of its conditions;
    the empty filter matches every document. *)
Definition matches (filter : bson_M) (doc : Redirect) : bool :=
  bool_decide (map_Forall (fun key value => field doc key = Some value) filter).

(** [db.Collection(name).Find(ctx, filter)]: an error, or else a cursor
    over the matching documents of the collection, in stored order. *)
Definition Collection_Find (db : Database) (name : string) (ctx : context_Context)
    (filter : bson_M) : error + Cursor :=
  match find_error db with
  | Some e => inl e
  | None =>
      inr {| batch := List.filter (matches filter) (default [] (collections db !! name));
             cursor_error := read_error db |}
  end.

(** [cursor.All(ctx, v)]. *)
Definition Cursor_All (c : Cursor) (ctx : context_Context) (v : list Redirect)
  : list Redirect * option error :=
  match cursor_error c with
  | Some e => (v, Some e)
  | None => (batch c, None)
  end.
End mongo.

Record RedirectoryDatabase : Type := { db : mongo.Database }.

Definition redirectoryCollectionName : string := "redirect".

Definition NewRedirectoryDatabase (db : mongo.Database) : RedirectoryDatabase :=
  {| db := db |}.

(** [Find] fills the slice behind [v] and returns the error. *)
Definition Find (r : RedirectoryDatabase) (ctx : context_Context) (v : list Redirect)
    (filter : bson_M) : list Redirect * option error :=
  match mongo.Collection_Find (db r) redirectoryCollectionName ctx filter with
  | inl err => (v, Some err)
  | inr cursor => mongo.Cursor_All cursor ctx v
  end.

Section DbHandler.
Context {H : Type} `{!Handler H}.

Definition DbHandler (ctx : context_Context) (r : RedirectoryDatabase) (fallback : H)
  : option HandlerFunc * option error :=
  let redirects : list Redirect := [] in
  let '(redirects, err) := Find r ctx redirects ∅ in
  match err with
  | Some e => (None, Some e)
  | None =>
      let pathsToUrls := RedirectsToMap redirects in
      (Some (MapHandler pathsToUrls fallback), None)
  end.
End DbHandler.

(** ** The record-store-backed handler in the words of the specification *)

Section RecordStoreSpec.
Context {H : Type} `{!Handler H}.

(** Section 4.5 of the specification, word by word: on each incoming
    request the handler queries the store for the complete current set of
    records (no filter), rebuilds the table, and then applies the lookup
    handler to that single request; a query that fails fails the request
    (section 7).  [store] is the record store as it stands when the request
    arrives.  This definition follows the specification, not the code: it
    is what [DbHandler] is compared with. *)
Definition RefreshingHandler_spec (ctx : context_Context) (store : RedirectoryDatabase)
    (fallback : H) (w : ResponseWriter) (r : Request) : error + ResponseWriter :=
  match Find store ctx [] ∅ with
  | (_, Some e) => inl e
  | (records, None) => inr (MapHandler (RedirectsToMap records) fallback w r)
  end.
End RecordStoreSpec.

(** A request counts as failed when its status is in the error classes
    (4xx, 5xx); the specification leaves the exact code open. *)
Definition failed_request (w : ResponseWriter) : Prop := 400 <= Code w.

(** The response a constructor's result gives to one request, when it
    returned a handler. *)
Definition serve (result : option HandlerFunc * option error) (w : ResponseWriter)
    (r : Request) : option ResponseWriter :=
  (fun h : HandlerFunc => h w r) <$> result.1.

(** ** Fixtures of handlers_test.go and main.go *)

Definition testPathsToUrls : gmap string string :=
  <["/redirect" := "/netapp"]>
    (<["/another-redirect" := "/google"]>
       (<["/final-redirect" := "/local"]> ∅)).

Definition testYaml : string := "
- path: /urlshort
  url: /my-very-long-url
- path: /urlshort-final
  url: /my-much-much-longer-url
".

(** The double quote character, and a quoted JSON string. *)
Definition dquote : string := String (Ascii.ascii_of_nat 34) EmptyString.
Definition quoted (s : string) : string := dquote ++ s ++ dquote.

Definition testJson : string :=
  "
[ 
    {
        " ++ quoted "path" ++ ": " ++ quoted "/urlshort" ++ ",
        " ++ quoted "url" ++ ": " ++ quoted "/my-very-long-url" ++ "
    },
    {
        " ++ quoted "path" ++ ": " ++ quoted "/urlshort-final" ++ ",
        " ++ quoted "url" ++ ": " ++ quoted "/my-much-much-longer-url" ++ "
    }
]
".

Definition testRedirects : list Redirect :=
  [ {| Path := "/urlshort"; URL := "/my-very-long-url" |};
    {| Path := "/urlshort-final"; URL := "/my-much-much-longer-url" |} ].

Definition tab : string := String (Ascii.ascii_of_nat 9) EmptyString.

(** [invalidYaml] of [TestParseYamlFailure]: tab-indented lines. *)
Definition invalidYaml : string :=
  "
- path: /urlshort
" ++ tab ++ "url: https://github.com/gophercises/urlshort
path: /urlshort-final
" ++ tab ++ "url: https://github.com/gophercises/urlshort/tree/solution
".

(** An unterminated JSON array. *)
Definition invalidJson : string := "[ {".

Definition fallbackPath : string := "/unused-path".
Definition fallbackText : string := "Hello, world".

(** The closure the fallback tests register: [fmt.Fprint(w, fallbackText)]. *)
Definition fallbackHandler : HandlerFunc := fun w r => Fprint w fallbackText.

(** A GET request whose target is the given path, without a query. *)
Definition get (path : string) : Request :=
  {| Method := "GET"; net_http.URL := {| net_url.Path := path; net_url.RawQuery := "" |} |}.

(** Test doubles for the two external decoders, defined on the texts of
    the test file only: [TestParseYamlSuccess] fixes the records [testYaml]
    decodes to, [TestParseYamlFailure] that [invalidYaml] is refused, and
    [TestJsonHandlerRedirect] that [testJson] carries the same records.  Any
    other text is refused. *)
Definition test_yaml_Unmarshal (yml : bytes) (v : list Redirect)
  : list Redirect * option error :=
  if String.eqb (String.string_of_list_byte yml) testYaml then (testRedirects, None)
  else (v, Some "yaml: found character that cannot start any token").

Definition test_json_Unmarshal (jsn : bytes) (v : list Redirect)
  : list Redirect * option error :=
  if String.eqb (String.string_of_list_byte jsn) testJson then (testRedirects, None)
  else (v, Some "unexpected end of JSON input").

(** The records [Task4] stores, and three states of the record store: as
    [Task4] leaves it, after an outside update that moved one destination,
    and while the server refuses queries. *)
Definition task4Redirects : list Redirect :=
  [ {| Path := "/urlshort"; URL := "https://github.com/gophercises/urlshort" |};
    {| Path := "/urlshort-final";
       URL := "https://github.com/gophercises/urlshort/tree/solution" |} ].

Definition store_at_build : RedirectoryDatabase :=
  NewRedirectoryDatabase
    {| mongo.collections := {[ redirectoryCollectionName := task4Redirects ]};
       mongo.find_error := None; mongo.read_error := None |}.

Definition store_updated : RedirectoryDatabase :=
  NewRedirectoryDatabase
    {| mongo.collections :=
         {[ redirectoryCollectionName :=
              [ {| Path := "/urlshort"; URL := "/moved" |} ] ]};
       mongo.find_error := None; mongo.read_error := None |}.

Definition store_down : RedirectoryDatabase :=
  NewRedirectoryDatabase
    {| mongo.collections := {[ redirectoryCollectionName := task4Redirects ]};
       mongo.find_error := Some "server selection error"; mongo.read_error := None |}.

Definition task4Context : context_Context := context_WithTimeout context_Background 30.

(** ** Properties of handlers, as predicates *)

(** The two outcomes of the lookup handler, told apart by whether the
    fallback has a say: a redirect is the same for every fallback, a
    fallback invocation is the fallback's own answer for every fallback. *)
Definition redirects_to (T : gmap string string) (r : Request) (url : string) : Prop :=
  ∀ (F : HandlerFunc) (w : ResponseWriter),
    MapHandler T F w r = net_http.Redirect w r url StatusFound.

Definition falls_back (T : gmap string string) (r : Request) : Prop :=
  ∀ (F : HandlerFunc) (w : ResponseWriter), MapHandler T F w r = F w r.

(** A fallback that answers with a status no redirect has. *)
Definition probe : HandlerFunc :=
  fun w r => {| Code := 0; wroteHeader := true; HeaderMap := ∅; Body := "" |}.

(** The per-request refresh of section 4.5 as a property of [DbHandler]:
    whatever the store held when the handler was built, a request is
    answered from the records the store holds when the request arrives. *)
Definition refreshes_on_each_request : Prop :=
  ∀ (ctx : context_Context) (at_build at_request : RedirectoryDatabase)
    (F h : HandlerFunc) (w response : ResponseWriter) (r : Request),
    DbHandler ctx at_build F = (Some h, None) ->
    RefreshingHandler_spec ctx at_request F w r = inr response ->
    h w r = response.

(** The failure policy of section 7 as a property of [DbHandler]: a
    request that arrives while the store refuses the query is a failed
    request. *)
Definition store_failure_fails_request : Prop :=
  ∀ (ctx : context_Context) (at_build at_request : RedirectoryDatabase)
    (F h : HandlerFunc) (e : error) (r : Request),
    DbHandler ctx at_build F = (Some h, None) ->
    (Find at_request ctx [] ∅).2 = Some e ->
    failed_request (h NewRecorder r).

(** ** Decoding into [[]Redirect] by struct tags *)

(** The document a decoder has parsed a text into, before it is stored
    into Go values. *)
#[local] Unset Elimination Schemes.
Inductive node : Type :=
  | node_String (s : string)
  | node_Other (text : string)
  | node_Sequence (items : list node)
  | node_Mapping (entries : list (string * node)).
#[local] Set Elimination Schemes.

Inductive field : Type := field_Path | field_URL.

(** The struct tags of [Redirect]: [yaml:"path" json:"path"] on [Path],
    [yaml:"url" json:"url"] on [URL]. *)
Definition yaml_tag (f : field) : string :=
  match f with field_Path => "path" | field_URL => "url" end.

Definition json_tag (f : field) : string :=
  match f with field_Path => "path" | field_URL => "url" end.

(** A mapping with exactly the two tagged keys, each with a string value,
    is stored into a [Redirect] field by field. *)
Definition decode_record (tag : field -> string) (entries : list (string * node))
  : option Redirect :=
  match entries with
  | [(k1, node_String v1); (k2, node_String v2)] =>
      if decide (k1 = tag field_Path ∧ k2 = tag field_URL)
      then Some {| Path := v1; URL := v2 |}
      else if decide (k1 = tag field_URL ∧ k2 = tag field_Path)
      then Some {| Path := v2; URL := v1 |}
      else None
  | _ => None
  end.

Definition decode_item (tag : field -> string) (item : node) : option Redirect :=
  match item with
  | node_Mapping entries => decode_record tag entries
  | _ => None
  end.

Definition decode_document (tag : field -> string) (doc : node) : option (list Redirect) :=
  match doc with
  | node_Sequence items => mapM (decode_item tag) items
  | _ => None
  end.

(** [Unmarshal(text, &redirects)] of a decoder that binds keys to fields
    by their tags.  The parser of the format is a parameter.  A sequence of
    mappings that carry exactly the tagged keys with string values is
    stored record by record, in order; what the decoder does with any other
    document (missing or further keys, other value types) differs between
    the two packages and is a parameter as well. *)
Section TagDecoder.
Variable parse : bytes -> error + node.
Variable tag : field -> string.
Variable other_document : node -> list Redirect -> list Redirect * option error.

Definition Unmarshal_by_tags (text : bytes) (v : list Redirect)
  : list Redirect * option error :=
  match parse text with
  | inl e => (v, Some e)
  | inr doc =>
      match decode_document tag doc with
      | Some records => (records, None)
      | None => other_document doc v
      end
  end.
End TagDecoder.

(** Section 6 of the specification, for both formats: a top-level
    ordered list whose elements are objects with the keys [path] and
    [url], both strings.  A document encodes a list of records when its
    items are such objects, one per record and in the order of the
    records; the two keys of an object may come in either order. *)
Definition encodes_record (item : node) (r : Redirect) : Prop :=
  item = node_Mapping [("path", node_String (Path r)); ("url", node_String (URL r))]
  ∨ item = node_Mapping [("url", node_String (URL r)); ("path", node_String (Path r))].

Definition encodes (doc : node) (records : list Redirect) : Prop :=
  ∃ items : list node, doc = node_Sequence items ∧ Forall2 encodes_record items records.

(** The document with the keys in the order [path], [url]. *)
Definition document_of (records : list Redirect) : node :=
  node_Sequence
    ((fun r => node_Mapping [("path", node_String (Path r)); ("url", node_String (URL r))])
       <$> records).

(** Test doubles for the parsers of the two formats, defined on the texts
    of the test file only. *)
Definition test_yaml_parse (text : bytes) : error + node :=
  if String.eqb (String.string_of_list_byte text) testYaml
  then inr (document_of testRedirects)
  else inl "yaml: found character that cannot start any token".

Definition test_json_parse (text : bytes) : error + node :=
  if String.eqb (String.string_of_list_byte text) testJson
  then inr (document_of testRedirects)
  else inl "unexpected end of JSON input".

(** A stand-in for what a decoder does with a document outside the schema. *)
Definition test_other_document (doc : node) (v : list Redirect)
  : list Redirect * option error :=
  (v, Some "cannot unmarshal into []Redirect").

(** ** ParseYamlFile *)

(** How a call ends: it returns to its caller, or [log.Fatal] ends the
    process with the error it was given. *)
Inductive outcome (A : Type) : Type :=
  | Returns (a : A)
  | Fatal (err : error).

Arguments Returns {A} a.
Arguments Fatal {A} err.

(** The file system and the streaming YAML decoder are external: [os.Open],
    the file's [Close], and [yaml.NewDecoder(bufio.NewReader(f)).Decode(v)]
    are parameters.  The deferred closure runs after the result was set by
    [return err]; the result is unnamed, so what the closure assigns to
    [err] does not reach the caller, and a failed [Close] ends the process. *)
Section ParseYamlFile.
Context {File : Type}.
Variable os_Open : string -> error + File.
Variable File_Close : File -> option error.
Variable yaml_Decode : File -> list Redirect -> list Redirect * option error.

Definition ParseYamlFile (path : string) (v : list Redirect)
  : outcome (list Redirect * option error) :=
  match os_Open path with
  | inl err => Returns (v, Some err)
  | inr f =>
      let '(v, err) := yaml_Decode f v in
      match File_Close f with
      | Some err => Fatal err
      | None => Returns (v, err)
      end
  end.
End ParseYamlFile.

(** A constructor's result pair carries a handler or an error, not both
    and not neither. *)
Definition handler_xor_error (result : option HandlerFunc * option error) : Prop :=
  match result with
  | (Some _, None) | (None, Some _) => True
  | (Some _, Some _) | (None, None) => False
  end.

(** What the lookup handler over the table of [records] answers, read off
    the records: a redirect to the URL of the last record that has the
    request's path, the fallback's answer when no record has it. *)
Definition serves_last_record {H : Type} `{!Handler H} (records : list Redirect)
    (fallback : H) (h : HandlerFunc) : Prop :=
  ∀ (w : ResponseWriter) (r : Request),
    h w r =
      match last (filter (fun rec => Path rec = net_url.Path (net_http.URL r)) records) with
      | Some rec => net_http.Redirect w r (URL rec) StatusFound
      | None => ServeHTTP fallback w r
      end.

(** A record store that answers and holds no collection. *)
Definition store_empty : RedirectoryDatabase :=
  NewRedirectoryDatabase
    {| mongo.collections := ∅; mongo.find_error := None; mongo.read_error := None |}.

(** * Properties *)

(** ** The lookup handler *)

Section MapHandlerFacts.
Context {H : Type} `{!Handler H}.

Lemma MapHandler_unfold (T : gmap string string) (F : H) (w : ResponseWriter) (r : Request) :
  MapHandler T F w r =
    match T !! net_url.Path (net_http.URL r) with
    | Some url => net_http.Redirect w r url StatusFound
    | None => ServeHTTP F w r
    end.
Proof. reflexivity. Qed.

Lemma Redirect_Code (w : ResponseWriter) (r : Request) (url : string) (code : Z) :
  wroteHeader w = false -> Code (net_http.Redirect w r url code) = code.
Proof. intros Hfresh. unfold net_http.Redirect, WriteHeader. cbn. by rewrite Hfresh. Qed.

Lemma Redirect_Location (w : ResponseWriter) (r : Request) (url : string) (code : Z) :
  HeaderMap (net_http.Redirect w r url code) !! "Location"
  = Some [hexEscapeNonASCII (redirect_target (net_url.Path (net_http.URL r)) url)].
Proof.
  unfold net_http.Redirect, WriteHeader. cbn.
  destruct (wroteHeader w); cbn; apply lookup_insert_eq.
Qed.

Lemma break_absent (c : ascii) (s : string) :
  go_strings.contains c s = false -> go_strings.break c s = (s, "").
Proof.
  induction s as [|a s IH]; cbn; [done|].
  intros [Ha Hs]%orb_false_elim. by rewrite Ha, (IH Hs).
Qed.

Lemma append_empty_r (s : string) : s ++ "" = s.
Proof.
  induction s as [|a s IH]; [done|].
  change (String a (s ++ "") = String a s). by f_equal.
Qed.

Lemma hexEscapeNonASCII_ascii (s : string) :
  go_strings.is_ascii s = true -> hexEscapeNonASCII s = s.
Proof.
  induction s as [|a s IH]; cbn; [done|].
  intros [Ha Hs]%andb_prop. by rewrite Ha, (IH Hs).
Qed.

(** A rooted, clean destination without a query is its own target. *)
Lemma redirect_target_clean (oldpath url : string) :
  go_strings.HasPrefix url "/" = true ->
  go_strings.contains "?" url = false ->
  path.Clean url = url ->
  redirect_target oldpath url = url.
Proof.
  intros Hrooted Hquery Hclean. unfold redirect_target.
  destruct (net_url.Parse_relative url); [|done].
  destruct (decide (url = "")) as [->|_]; [discriminate Hrooted|].
  rewrite Hrooted. cbn [negb]. rewrite (break_absent _ _ Hquery), Hclean.
  rewrite andb_negb_r. apply append_empty_r.
Qed.

(** C1.  When the table maps the request's path [P] to [D], the handler
    built by [MapHandler] does exactly what [http.Redirect(w, r, D,
    http.StatusFound)] does and nothing else, whatever the fallback [F] is.
    On a writer whose status was not written before, the status is 302.
    The [Location] header is the destination as [http.Redirect] rewrites
    it: it is [D] itself when [D] does not parse as a URL without scheme
    and host (an absolute URL, for one) or when [D] is a rooted, clean path
    without a query, [D] being ASCII in both cases. *)
Theorem MapHandler_hit (T : gmap string string) (P D : string) (F : H)
    (w : ResponseWriter) (r : Request) :
  T !! P = Some D ->
  net_url.Path (net_http.URL r) = P ->
  MapHandler T F w r = net_http.Redirect w r D StatusFound
  ∧ (wroteHeader w = false -> Code (MapHandler T F w r) = 302)
  ∧ HeaderMap (MapHandler T F w r) !! "Location"
    = Some [hexEscapeNonASCII (redirect_target P D)]
  ∧ (net_url.Parse_relative D = false ->
     go_strings.is_ascii D = true ->
     HeaderMap (MapHandler T F w r) !! "Location" = Some [D])
  ∧ (go_strings.HasPrefix D "/" = true ->
     go_strings.contains "?" D = false ->
     path.Clean D = D ->
     go_strings.is_ascii D = true ->
     HeaderMap (MapHandler T F w r) !! "Location" = Some [D]).
Proof.
  intros Hhit Hpath.
  assert (MapHandler T F w r = net_http.Redirect w r D StatusFound) as ->.
  { rewrite MapHandler_unfold, Hpath, Hhit. reflexivity. }
  rewrite Redirect_Location, Hpath.
  split; [reflexivity|].
  split; [apply Redirect_Code|].
  split; [reflexivity|].
  split.
  - intros Habsolute Hascii. unfold redirect_target. rewrite Habsolute.
    by rewrite hexEscapeNonASCII_ascii.
  - intros Hrooted Hquery Hclean Hascii.
    by rewrite redirect_target_clean, hexEscapeNonASCII_ascii.
Qed.

(** C2.  When the request's path [P] is not a key of the table, the handler
    built by [MapHandler] hands the writer and the request, as received, to
    the fallback's [ServeHTTP], and its answer is the fallback's answer. *)
Theorem MapHandler_miss (T : gmap string string) (P : string) (F : H)
    (w : ResponseWriter) (r : Request) :
  T !! P = None ->
  net_url.Path (net_http.URL r) = P ->
  MapHandler T F w r = ServeHTTP F w r.
Proof.
  intros Hmiss Hpath. rewrite MapHandler_unfold, Hpath, Hmiss. reflexivity.
Qed.
End MapHandlerFacts.

Lemma append_same_empty (k suffix : string) : k ++ suffix = k -> suffix = "".
Proof.
  induction k as [|c k IH]; cbn; [done|].
  intros Heq. injection Heq as Heq. by apply IH.
Qed.

Lemma Redirect_not_probe (r : Request) (url : string) :
  net_http.Redirect NewRecorder r url StatusFound ≠ probe NewRecorder r.
Proof. intros Heq. apply (f_equal Code) in Heq. discriminate Heq. Qed.

(** The redirect depends on the request through its path only. *)
Lemma Redirect_path_only (w : ResponseWriter) (r r' : Request) (url : string) (code : Z) :
  net_url.Path (net_http.URL r) = net_url.Path (net_http.URL r') ->
  net_http.Redirect w r url code = net_http.Redirect w r' url code.
Proof. intros Hpath. unfold net_http.Redirect. by rewrite Hpath. Qed.

Lemma redirects_to_lookup (T : gmap string string) (r : Request) (url : string) :
  T !! net_url.Path (net_http.URL r) = Some url -> redirects_to T r url.
Proof. intros Hlook F w. by rewrite MapHandler_unfold, Hlook. Qed.

(** A request is redirected as to [url] exactly when the table has an
    entry for its path whose redirect is the redirect to [url]. *)
Lemma redirects_to_iff (T : gmap string string) (r : Request) (url : string) :
  redirects_to T r url
  ↔ ∃ url', T !! net_url.Path (net_http.URL r) = Some url'
            ∧ ∀ w, net_http.Redirect w r url' StatusFound
                   = net_http.Redirect w r url StatusFound.
Proof.
  split.
  - intros Hred.
    destruct (T !! net_url.Path (net_http.URL r)) as [url'|] eqn:Hlook.
    + exists url'. split; [done|]. intros w.
      specialize (Hred probe w). by rewrite MapHandler_unfold, Hlook in Hred.
    + specialize (Hred probe NewRecorder). rewrite MapHandler_unfold, Hlook in Hred.
      symmetry in Hred. by apply Redirect_not_probe in Hred.
  - intros (url' & Hlook & Hsame) F w. by rewrite MapHandler_unfold, Hlook.
Qed.

Lemma falls_back_iff (T : gmap string string) (r : Request) :
  falls_back T r ↔ T !! net_url.Path (net_http.URL r) = None.
Proof.
  split.
  - intros Hfb. specialize (Hfb probe NewRecorder).
    rewrite MapHandler_unfold in Hfb.
    destruct (T !! net_url.Path (net_http.URL r)) as [url'|] eqn:Hlook; [|done].
    by apply Redirect_not_probe in Hfb.
  - intros Hlook F w. by rewrite MapHandler_unfold, Hlook.
Qed.

(** C9.  The lookup is total and has no error outcome: for every table and
    every request, whatever its path (the empty string included), exactly
    one of redirect and fallback invocation happens, the redirect exactly
    when the request's path component is a key of the table.  Matching is
    equality of strings: against a table with the single key [k] a request
    is redirected if and only if its path component is [k], so a longer
    path with prefix [k], [k] with a slash appended and [k] followed by a
    query text inside the path component all fall back, and the query
    component and the method play no part. *)
Theorem MapHandler_total_exact :
  (∀ (T : gmap string string) (r : Request),
     ((∃ url, redirects_to T r url) ∧ ¬ falls_back T r
      ∧ net_url.Path (net_http.URL r) ∈ dom T)
     ∨ (falls_back T r ∧ ¬ (∃ url, redirects_to T r url)
        ∧ net_url.Path (net_http.URL r) ∉ dom T))
  ∧ (∀ (k d : string) (r : Request),
       (∃ url, redirects_to {[ k := d ]} r url) ↔ net_url.Path (net_http.URL r) = k)
  ∧ (∀ (T : gmap string string) (m m' q q' path : string) (url : string),
       redirects_to T {| Method := m;
                         net_http.URL := {| net_url.Path := path; net_url.RawQuery := q |} |} url
       ↔ redirects_to T {| Method := m';
                           net_http.URL := {| net_url.Path := path; net_url.RawQuery := q' |} |} url)
  ∧ (∀ (k d : string) (c : Ascii.ascii) (suffix : string),
       falls_back {[ k := d ]} (get (k ++ String c suffix)))
  ∧ (∀ (d : string) (T : gmap string string),
       redirects_to (<["" := d]> T) (get "") d).
Proof.
  split; [|split; [|split; [|split]]].
  - intros T r.
    destruct (T !! net_url.Path (net_http.URL r)) as [url|] eqn:Hlook.
    + left. split; [|split].
      * exists url. by apply redirects_to_lookup.
      * rewrite falls_back_iff. congruence.
      * apply elem_of_dom. by exists url.
    + right. split; [|split].
      * by apply falls_back_iff.
      * intros [url (url' & Hhit & _)%redirects_to_iff]. congruence.
      * by apply not_elem_of_dom.
  - intros k d r. split.
    + intros [url (url' & Hhit & _)%redirects_to_iff].
      apply lookup_singleton_Some in Hhit. by destruct Hhit.
    + intros Hpath. exists d. apply redirects_to_lookup.
      rewrite Hpath. apply lookup_singleton_eq.
  - intros T m m' q q' path url. rewrite !redirects_to_iff. cbn.
    split; intros (url' & Hhit & Hsame); exists url'; (split; [done|]); intros w;
      specialize (Hsame w); unfold net_http.Redirect in *; exact Hsame.
  - intros k d c suffix. apply falls_back_iff. cbn.
    apply lookup_singleton_ne. intros Heq. symmetry in Heq.
    by apply append_same_empty in Heq.
  - intros d T. apply redirects_to_lookup. cbn. apply lookup_insert_eq.
Qed.

(** ** The table builder *)

Lemma RedirectsToMap_snoc (redirects : list Redirect) (r : Redirect) :
  RedirectsToMap (redirects ++ [r]) = <[Path r := URL r]> (RedirectsToMap redirects).
Proof. unfold RedirectsToMap. by rewrite foldl_snoc. Qed.

(** What the table holds for a path is the URL of the last record with
    that path. *)
Lemma RedirectsToMap_lookup (redirects : list Redirect) (p : string) :
  RedirectsToMap redirects !! p = URL <$> last (filter (fun r => Path r = p) redirects).
Proof.
  induction redirects as [|r redirects IH] using rev_ind; [done|].
  rewrite RedirectsToMap_snoc, filter_app.
  destruct (decide (Path r = p)) as [Hp|Hp].
  - rewrite filter_cons_True, filter_nil, last_snoc by done.
    rewrite Hp. by rewrite lookup_insert_eq.
  - rewrite filter_cons_False, filter_nil, app_nil_r by done.
    by rewrite lookup_insert_ne.
Qed.

(** C4.  [RedirectsToMap] goes through the records from left to right, each
    record overwriting what the table held for its path, so the table maps
    every path to the URL of the last record that carries it; the records
    [{"/a", "/x"}, {"/a", "/y"}] give the table with the one entry
    ["/a" -> "/y"]. *)
Theorem RedirectsToMap_last_write_wins :
  RedirectsToMap [] = ∅
  ∧ (∀ (redirects : list Redirect) (r : Redirect),
       RedirectsToMap (redirects ++ [r])
       = <[Path r := URL r]> (RedirectsToMap redirects))
  ∧ (∀ (redirects : list Redirect) (p : string),
       RedirectsToMap redirects !! p
       = URL <$> last (filter (fun r => Path r = p) redirects))
  ∧ RedirectsToMap [ {| Path := "/a"; URL := "/x" |}; {| Path := "/a"; URL := "/y" |} ]
    = {[ "/a" := "/y" ]}.
Proof.
  split; [reflexivity|].
  split; [apply RedirectsToMap_snoc|].
  split; [apply RedirectsToMap_lookup|].
  unfold RedirectsToMap. cbn. apply insert_insert_eq.
Qed.

(** C8.  Appending an exact copy of a record that is already the last one
    of the sequence for its path (no record after it has the same path)
    does not change the table. *)
Theorem RedirectsToMap_duplicate_idempotent (before after : list Redirect) (r : Redirect) :
  Forall (fun r' => Path r' ≠ Path r) after ->
  RedirectsToMap ((before ++ r :: after) ++ [r]) = RedirectsToMap (before ++ r :: after).
Proof.
  intros Hafter. rewrite RedirectsToMap_snoc. apply insert_id.
  rewrite RedirectsToMap_lookup, filter_app, filter_cons_True by done.
  assert (filter (fun r' => Path r' = Path r) after = []) as ->.
  { induction Hafter as [|r' after Hr' _ IH]; [done|].
    by rewrite filter_cons_False. }
  by rewrite last_snoc.
Qed.

(** Without that proviso the appended copy can change the table: after
    [{"/a", "/x"}, {"/a", "/y"}] a second copy of the first record brings
    ["/x"] back. *)
Example RedirectsToMap_duplicate_of_overwritten :
  RedirectsToMap ([ {| Path := "/a"; URL := "/x" |}; {| Path := "/a"; URL := "/y" |} ]
                    ++ [ {| Path := "/a"; URL := "/x" |} ]) !! "/a" = Some "/x"
  ∧ RedirectsToMap [ {| Path := "/a"; URL := "/x" |}; {| Path := "/a"; URL := "/y" |} ]
      !! "/a" = Some "/y".
Proof. rewrite !RedirectsToMap_lookup. split; reflexivity. Qed.

(** ** The conversion to a slice of interfaces *)

Lemma index_assign_Some {A : Type} (s : list A) (i : nat) (v : A) :
  (i < length s)%nat -> index_assign s i v = Some (<[i := v]> s).
Proof. intros Hi. unfold index_assign. by rewrite decide_True. Qed.

(** The loop invariant: with the records [stored] already stored in front of
    nil entries for the records still to come, the loop ends with all the
    records stored, in their order. *)
Lemma range_assign_invariant (rest stored : list Redirect) :
  range_assign (length stored) rest
    ((iface_Redirect <$> stored) ++ replicate (length rest) iface_nil)
  = Some (iface_Redirect <$> (stored ++ rest)%list).
Proof.
  revert stored. induction rest as [|v rest IH]; intros stored.
  - cbn. by rewrite !app_nil_r.
  - cbn [range_assign length replicate].
    rewrite index_assign_Some.
    2:{ rewrite length_app, length_fmap. cbn. lia. }
    rewrite insert_app_r_alt by (rewrite length_fmap; lia).
    rewrite length_fmap, Nat.sub_diag. cbn [insert list_insert].
    specialize (IH (stored ++ [v])%list).
    rewrite length_app, Nat.add_1_r, fmap_app, <- !app_assoc in IH.
    exact IH.
Qed.

(** C10.  [RedirectsToArrayInterface] returns (it does not panic) a slice
    of the length of its input whose entry at every index is the input
    record at that index, wrapped as an interface value: nothing is added,
    dropped, reordered or changed. *)
Theorem RedirectsToArrayInterface_preserves (redirects : list Redirect) :
  ∃ s : list interface,
    RedirectsToArrayInterface redirects = Some s
    ∧ length s = length redirects
    ∧ (∀ i : nat, s !! i = iface_Redirect <$> (redirects !! i))
    ∧ s = iface_Redirect <$> redirects.
Proof.
  exists (iface_Redirect <$> redirects).
  split; [|split; [|split]].
  - exact (range_assign_invariant redirects []).
  - apply length_fmap.
  - intros i. apply list_lookup_fmap.
  - reflexivity.
Qed.

(** ** The decoder-backed factories *)

Section DecoderFacts.
Variable yaml_Unmarshal : bytes -> list Redirect -> list Redirect * option error.
Variable json_Unmarshal : bytes -> list Redirect -> list Redirect * option error.
Context {H : Type} `{!Handler H}.

Lemma YamlHandler_unfold (yml : bytes) (F : H) :
  YamlHandler yaml_Unmarshal yml F =
    match (ParseYaml yaml_Unmarshal yml []).2 with
    | Some e => (None, Some e)
    | None =>
        (Some (MapHandler (RedirectsToMap (ParseYaml yaml_Unmarshal yml []).1) F), None)
    end.
Proof.
  unfold YamlHandler. by destruct (ParseYaml yaml_Unmarshal yml []) as [records [e|]].
Qed.

Lemma JsonHandler_unfold (jsn : bytes) (F : H) :
  JsonHandler json_Unmarshal jsn F =
    match (ParseJson json_Unmarshal jsn []).2 with
    | Some e => (None, Some e)
    | None =>
        (Some (MapHandler (RedirectsToMap (ParseJson json_Unmarshal jsn []).1) F), None)
    end.
Proof.
  unfold JsonHandler. by destruct (ParseJson json_Unmarshal jsn []) as [records [e|]].
Qed.

(** C6.  When the decoder reports an error for a buffer, [YamlHandler]
    (and likewise [JsonHandler]) returns that very error and the nil
    handler, also when the decoder had already written some records
    ([written]) before it failed: these are not turned into a table. *)
Theorem decode_error_propagates (buf : bytes) (F : H) (written : list Redirect) (e : error) :
  (ParseYaml yaml_Unmarshal buf [] = (written, Some e) ->
   YamlHandler yaml_Unmarshal buf F = (None, Some e))
  ∧ (ParseJson json_Unmarshal buf [] = (written, Some e) ->
     JsonHandler json_Unmarshal buf F = (None, Some e)).
Proof.
  split; intros Herr.
  - by rewrite YamlHandler_unfold, Herr.
  - by rewrite JsonHandler_unfold, Herr.
Qed.
End DecoderFacts.

(** A document that encodes a list of records under the schema is stored
    into exactly that list, by a decoder whose tags are the schema's keys. *)
Lemma decode_document_encodes (tag : field -> string) (doc : node)
    (records : list Redirect) :
  tag field_Path = "path" ->
  tag field_URL = "url" ->
  encodes doc records ->
  decode_document tag doc = Some records.
Proof.
  intros Hpath Hurl (items & -> & Hitems). cbn. apply mapM_Some.
  eapply Forall2_impl; [exact Hitems|].
  intros item r [-> | ->]; cbn; rewrite Hpath, Hurl.
  - rewrite decide_True by done. by destruct r.
  - rewrite decide_False by (intros [? _]; discriminate).
    rewrite decide_True by done. by destruct r.
Qed.

Lemma Unmarshal_by_tags_encodes (parse : bytes -> error + node) (tag : field -> string)
    (other : node -> list Redirect -> list Redirect * option error)
    (text : bytes) (doc : node) (records v : list Redirect) :
  tag field_Path = "path" ->
  tag field_URL = "url" ->
  parse text = inr doc ->
  encodes doc records ->
  Unmarshal_by_tags parse tag other text v = (records, None).
Proof.
  intros Hpath Hurl Hparse Hdoc. unfold Unmarshal_by_tags.
  by rewrite Hparse, (decode_document_encodes tag doc records Hpath Hurl Hdoc).
Qed.

(** C5.  Let the two decoders bind keys to the fields of [Redirect] by the
    YAML and the JSON struct tags, each over its own parser.  When a YAML
    text and a JSON text parse to documents that encode the same ordered
    list of records (a list of objects with the keys [path] and [url]),
    [ParseYaml] and [ParseJson] both return that list, the tables built
    from the two results are equal, namely the table that maps every path
    to the URL of its last record in the list, and [YamlHandler] and
    [JsonHandler] return the same handler. *)
Theorem decoders_interchangeable {H : Type} `{!Handler H}
    (yaml_parse json_parse : bytes -> error + node)
    (yaml_other json_other : node -> list Redirect -> list Redirect * option error)
    (yml jsn : bytes) (yaml_doc json_doc : node) (records : list Redirect) (F : H) :
  yaml_parse yml = inr yaml_doc ->
  encodes yaml_doc records ->
  json_parse jsn = inr json_doc ->
  encodes json_doc records ->
  ParseYaml (Unmarshal_by_tags yaml_parse yaml_tag yaml_other) yml [] = (records, None)
  ∧ ParseJson (Unmarshal_by_tags json_parse json_tag json_other) jsn [] = (records, None)
  ∧ RedirectsToMap (ParseYaml (Unmarshal_by_tags yaml_parse yaml_tag yaml_other) yml []).1
    = RedirectsToMap (ParseJson (Unmarshal_by_tags json_parse json_tag json_other) jsn []).1
  ∧ (∀ p : string,
       RedirectsToMap (ParseYaml (Unmarshal_by_tags yaml_parse yaml_tag yaml_other) yml []).1
         !! p
       = URL <$> last (filter (fun r => Path r = p) records))
  ∧ YamlHandler (Unmarshal_by_tags yaml_parse yaml_tag yaml_other) yml F
    = JsonHandler (Unmarshal_by_tags json_parse json_tag json_other) jsn F
  ∧ YamlHandler (Unmarshal_by_tags yaml_parse yaml_tag yaml_other) yml F
    = (Some (MapHandler (RedirectsToMap records) F), None).
Proof.
  intros Hyaml Hyaml_doc Hjson Hjson_doc.
  assert (ParseYaml (Unmarshal_by_tags yaml_parse yaml_tag yaml_other) yml []
          = (records, None)) as Hy.
  { unfold ParseYaml. by apply (Unmarshal_by_tags_encodes _ _ _ _ yaml_doc). }
  assert (ParseJson (Unmarshal_by_tags json_parse json_tag json_other) jsn []
          = (records, None)) as Hj.
  { unfold ParseJson. by apply (Unmarshal_by_tags_encodes _ _ _ _ json_doc). }
  rewrite YamlHandler_unfold, JsonHandler_unfold, Hy, Hj. cbn.
  repeat split. apply RedirectsToMap_lookup.
Qed.

(** ** The record-store-backed factory *)

Lemma matches_empty (doc : Redirect) : mongo.matches ∅ doc = true.
Proof. unfold mongo.matches. apply bool_decide_eq_true_2, map_Forall_empty. Qed.

Lemma filter_matches_empty (docs : list Redirect) :
  List.filter (mongo.matches ∅) docs = docs.
Proof.
  induction docs as [|doc docs IH]; [done|].
  cbn [List.filter]. by rewrite matches_empty, IH.
Qed.

(** On a store that answers, [Find] with the empty filter yields every
    document of the collection, in order. *)
Lemma Find_all (r : RedirectoryDatabase) (ctx : context_Context) (v : list Redirect) :
  mongo.find_error (db r) = None ->
  mongo.read_error (db r) = None ->
  Find r ctx v ∅
  = (default [] (mongo.collections (db r) !! redirectoryCollectionName), None).
Proof.
  intros Hfind Hread. unfold Find, mongo.Collection_Find, mongo.Cursor_All.
  rewrite Hfind. cbn. by rewrite Hread, filter_matches_empty.
Qed.

Section DbHandlerFacts.
Context {H : Type} `{!Handler H}.

Lemma DbHandler_unfold (ctx : context_Context) (r : RedirectoryDatabase) (F : H) :
  DbHandler ctx r F =
    match (Find r ctx [] ∅).2 with
    | Some e => (None, Some e)
    | None => (Some (MapHandler (RedirectsToMap (Find r ctx [] ∅).1) F), None)
    end.
Proof. unfold DbHandler. by destruct (Find r ctx [] ∅) as [records [e|]]. Qed.

(** What [DbHandler] does on a store that answers: it fetches the
    complete set of records of the collection (empty filter) when it is
    called, builds the table from them and returns the lookup handler over
    that table, a function of the writer and the request alone. *)
Lemma DbHandler_fetches_at_construction (ctx : context_Context)
    (r : RedirectoryDatabase) (F : H) :
  mongo.find_error (db r) = None ->
  mongo.read_error (db r) = None ->
  DbHandler ctx r F
  = (Some (MapHandler
             (RedirectsToMap
                (default [] (mongo.collections (db r) !! redirectoryCollectionName))) F),
     None).
Proof.
  intros Hfind Hread. by rewrite DbHandler_unfold, (Find_all r ctx [] Hfind Hread).
Qed.
End DbHandlerFacts.

Lemma DbHandler_at_build :
  DbHandler task4Context store_at_build fallbackHandler
  = (Some (MapHandler (RedirectsToMap task4Redirects) fallbackHandler), None).
Proof. by rewrite DbHandler_unfold, (Find_all store_at_build). Qed.

(** C3.  A per-request refresh does not take place.  The handler built
    by [DbHandler] on the store as [Task4] leaves it still sends
    [/urlshort] to the destination fetched at construction after the store
    was updated to [/moved], where the refresh on each request that section
    4.5 of the specification describes (and that the comment on [Task4]
    announces) would answer with [/moved]. *)
Theorem DbHandler_keeps_table_of_construction :
  serve (DbHandler task4Context store_at_build fallbackHandler)
        NewRecorder (get "/urlshort")
  = Some (net_http.Redirect NewRecorder (get "/urlshort")
            "https://github.com/gophercises/urlshort" 302)
  ∧ RefreshingHandler_spec task4Context store_updated fallbackHandler
      NewRecorder (get "/urlshort")
    = inr (net_http.Redirect NewRecorder (get "/urlshort") "/moved" 302)
  ∧ ¬ refreshes_on_each_request.
Proof.
  assert (RefreshingHandler_spec task4Context store_updated fallbackHandler
            NewRecorder (get "/urlshort")
          = inr (net_http.Redirect NewRecorder (get "/urlshort") "/moved" 302)) as Hspec.
  { unfold RefreshingHandler_spec. by rewrite (Find_all store_updated). }
  split; [by rewrite DbHandler_at_build|].
  split; [exact Hspec|].
  intros Hclaim.
  specialize (Hclaim _ _ _ _ _ _ _ _ DbHandler_at_build Hspec).
  apply (f_equal (fun w' => HeaderMap w' !! "Location")) in Hclaim.
  rewrite MapHandler_unfold in Hclaim. vm_compute in Hclaim. discriminate Hclaim.
Qed.

(** C7.  A store failure while a request is served is not surfaced.
    While the store refuses queries, the handler built earlier by
    [DbHandler] answers [/urlshort] with a 302 to the destination it
    fetched at construction, not with a failed request: it serves mapping
    data kept from before. *)
Theorem DbHandler_serves_while_store_is_down :
  (Find store_down task4Context [] ∅).2 = Some "server selection error"
  ∧ serve (DbHandler task4Context store_at_build fallbackHandler)
          NewRecorder (get "/urlshort")
    = Some (net_http.Redirect NewRecorder (get "/urlshort")
              "https://github.com/gophercises/urlshort" 302)
  ∧ ¬ store_failure_fails_request.
Proof.
  split; [reflexivity|].
  split; [by rewrite DbHandler_at_build|].
  intros Hclaim.
  specialize (Hclaim task4Context store_at_build store_down fallbackHandler _
                "server selection error" (get "/urlshort") DbHandler_at_build eq_refl).
  vm_compute in Hclaim. by apply Hclaim.
Qed.

(** ** The theorems at the inputs of the test file *)

Lemma MapHandler_hit_witness :
  testPathsToUrls !! "/redirect" = Some "/netapp"
  ∧ net_url.Path (net_http.URL (get "/redirect")) = "/redirect"
  ∧ MapHandler testPathsToUrls fallbackHandler NewRecorder (get "/redirect")
    = net_http.Redirect NewRecorder (get "/redirect") "/netapp" StatusFound
  ∧ Code (MapHandler testPathsToUrls fallbackHandler NewRecorder (get "/redirect")) = 302
  ∧ HeaderMap (MapHandler testPathsToUrls fallbackHandler NewRecorder (get "/redirect"))
      !! "Location" = Some ["/netapp"].
Proof.
  assert (testPathsToUrls !! "/redirect" = Some "/netapp") as Hhit
    by (vm_compute; reflexivity).
  destruct (MapHandler_hit testPathsToUrls "/redirect" "/netapp" fallbackHandler
              NewRecorder (get "/redirect") Hhit eq_refl)
    as (Hcall & Hcode & _ & _ & Hclean).
  split; [exact Hhit|].
  split; [reflexivity|].
  split; [exact Hcall|].
  split; [exact (Hcode eq_refl)|].
  apply Hclean; vm_compute; reflexivity.
Defined.

(** A relative destination is not the [Location] header: the table sends
    [/a/b] to [c], and the header is [/a/c].  On a writer whose status was
    already written as 404 the status stays 404. *)
Lemma MapHandler_hit_relative_destination :
  ({[ "/a/b" := "c" ]} : gmap string string) !! "/a/b" = Some "c"
  ∧ HeaderMap (MapHandler {[ "/a/b" := "c" ]} fallbackHandler NewRecorder (get "/a/b"))
      !! "Location" = Some ["/a/c"]
  ∧ HeaderMap (MapHandler {[ "/a/b" := "c" ]} fallbackHandler NewRecorder (get "/a/b"))
      !! "Location" ≠ Some ["c"]
  ∧ Code (MapHandler {[ "/a/b" := "c" ]} fallbackHandler
            (WriteHeader NewRecorder 404) (get "/a/b")) = 404.
Proof.
  assert (HeaderMap (MapHandler {[ "/a/b" := "c" ]} fallbackHandler NewRecorder
                       (get "/a/b")) !! "Location" = Some ["/a/c"]) as Hlocation
    by (vm_compute; reflexivity).
  split; [vm_compute; reflexivity|].
  split; [exact Hlocation|].
  split; [rewrite Hlocation; discriminate | vm_compute; reflexivity].
Qed.

Lemma MapHandler_miss_witness :
  testPathsToUrls !! fallbackPath = None
  ∧ net_url.Path (net_http.URL (get fallbackPath)) = fallbackPath
  ∧ MapHandler testPathsToUrls fallbackHandler NewRecorder (get fallbackPath)
    = ServeHTTP fallbackHandler NewRecorder (get fallbackPath).
Proof.
  split; [vm_compute; reflexivity|].
  split; [reflexivity|].
  apply (MapHandler_miss testPathsToUrls fallbackPath fallbackHandler
           NewRecorder (get fallbackPath)); [vm_compute; reflexivity | reflexivity].
Defined.

Lemma RedirectsToMap_duplicate_idempotent_witness :
  Forall (fun r' => Path r' ≠ "/urlshort") [ {| Path := "/urlshort-final"; URL := "/b" |} ]
  ∧ RedirectsToMap (([] ++ {| Path := "/urlshort"; URL := "/a" |}
                        :: [ {| Path := "/urlshort-final"; URL := "/b" |} ])
                      ++ [ {| Path := "/urlshort"; URL := "/a" |} ])
    = RedirectsToMap ([] ++ {| Path := "/urlshort"; URL := "/a" |}
                         :: [ {| Path := "/urlshort-final"; URL := "/b" |} ]).
Proof.
  assert (Forall (fun r' => Path r' ≠ "/urlshort")
            [ {| Path := "/urlshort-final"; URL := "/b" |} ]) as Hafter.
  { apply Forall_cons. split; [discriminate | apply Forall_nil_2]. }
  split; [exact Hafter|].
  exact (RedirectsToMap_duplicate_idempotent []
           [ {| Path := "/urlshort-final"; URL := "/b" |} ]
           {| Path := "/urlshort"; URL := "/a" |} Hafter).
Defined.

Lemma document_of_encodes (records : list Redirect) :
  encodes (document_of records) records.
Proof.
  exists ((fun r => node_Mapping [("path", node_String (Path r));
                                  ("url", node_String (URL r))]) <$> records).
  split; [reflexivity|].
  induction records as [|r records IH]; constructor; [by left | exact IH].
Defined.

Lemma decoders_interchangeable_witness :
  test_yaml_parse (bytes_of testYaml) = inr (document_of testRedirects)
  ∧ encodes (document_of testRedirects) testRedirects
  ∧ test_json_parse (bytes_of testJson) = inr (document_of testRedirects)
  ∧ ParseYaml (Unmarshal_by_tags test_yaml_parse yaml_tag test_other_document)
      (bytes_of testYaml) [] = (testRedirects, None)
  ∧ ParseJson (Unmarshal_by_tags test_json_parse json_tag test_other_document)
      (bytes_of testJson) [] = (testRedirects, None)
  ∧ YamlHandler (Unmarshal_by_tags test_yaml_parse yaml_tag test_other_document)
      (bytes_of testYaml) fallbackHandler
    = JsonHandler (Unmarshal_by_tags test_json_parse json_tag test_other_document)
        (bytes_of testJson) fallbackHandler.
Proof.
  assert (test_yaml_parse (bytes_of testYaml) = inr (document_of testRedirects)) as Hyaml
    by (vm_compute; reflexivity).
  assert (test_json_parse (bytes_of testJson) = inr (document_of testRedirects)) as Hjson
    by (vm_compute; reflexivity).
  destruct (decoders_interchangeable test_yaml_parse test_json_parse
              test_other_document test_other_document
              (bytes_of testYaml) (bytes_of testJson)
              (document_of testRedirects) (document_of testRedirects)
              testRedirects fallbackHandler
              Hyaml (document_of_encodes testRedirects)
              Hjson (document_of_encodes testRedirects))
    as (Hy & Hj & _ & _ & Hsame & _).
  split; [exact Hyaml|].
  split; [exact (document_of_encodes testRedirects)|].
  split; [exact Hjson|].
  split; [exact Hy|].
  split; [exact Hj | exact Hsame].
Defined.

Lemma decode_error_propagates_witness :
  ParseYaml test_yaml_Unmarshal (bytes_of invalidYaml) []
  = ([], Some "yaml: found character that cannot start any token")
  ∧ YamlHandler test_yaml_Unmarshal (bytes_of invalidYaml) fallbackHandler
    = (None, Some "yaml: found character that cannot start any token")
  ∧ ParseJson test_json_Unmarshal (bytes_of invalidJson) []
    = ([], Some "unexpected end of JSON input")
  ∧ JsonHandler test_json_Unmarshal (bytes_of invalidJson) fallbackHandler
    = (None, Some "unexpected end of JSON input").
Proof.
  assert (ParseYaml test_yaml_Unmarshal (bytes_of invalidYaml) []
          = ([], Some "yaml: found character that cannot start any token")) as Hyaml
    by (vm_compute; reflexivity).
  assert (ParseJson test_json_Unmarshal (bytes_of invalidJson) []
          = ([], Some "unexpected end of JSON input")) as Hjson
    by (vm_compute; reflexivity).
  split; [exact Hyaml|].
  split.
  { exact (proj1 (decode_error_propagates test_yaml_Unmarshal test_json_Unmarshal
                    (bytes_of invalidYaml) fallbackHandler [] _) Hyaml). }
  split; [exact Hjson|].
  exact (proj2 (decode_error_propagates test_yaml_Unmarshal test_json_Unmarshal
                  (bytes_of invalidJson) fallbackHandler [] _) Hjson).
Defined.

(** ** The end-to-end scenarios of the tests *)

(** [TestMapHandlerRedirect] and [TestMapHandlerFallback] on a fresh
    recorder. *)
Example MapHandler_end_to_end :
  let handler := MapHandler testPathsToUrls fallbackHandler in
  Code (handler NewRecorder (get "/redirect")) = 302
  ∧ HeaderMap (handler NewRecorder (get "/redirect")) !! "Location" = Some ["/netapp"]
  ∧ Code (handler NewRecorder (get fallbackPath)) = 200
  ∧ Body (handler NewRecorder (get fallbackPath)) = "Hello, world".
Proof. vm_compute. done. Qed.

(** [TestYamlHandlerRedirect] and [TestJsonHandlerRedirect], with the test
    doubles for the decoders. *)
Example decoder_handlers_end_to_end :
  serve (YamlHandler test_yaml_Unmarshal (bytes_of testYaml) fallbackHandler)
        NewRecorder (get "/urlshort")
  = Some (net_http.Redirect NewRecorder (get "/urlshort") "/my-very-long-url" 302)
  ∧ serve (JsonHandler test_json_Unmarshal (bytes_of testJson) fallbackHandler)
          NewRecorder (get "/urlshort-final")
    = Some (net_http.Redirect NewRecorder (get "/urlshort-final")
              "/my-much-much-longer-url" 302).
Proof. vm_compute. done. Qed.

(** * Further properties *)

(** ** The table builder: keys, values, size *)

Lemma RedirectsToMap_dom (redirects : list Redirect) :
  dom (RedirectsToMap redirects) = list_to_set (Path <$> redirects).
Proof.
  induction redirects as [|r redirects IH] using rev_ind; [done|].
  rewrite RedirectsToMap_snoc, dom_insert_L, fmap_app, list_to_set_app_L, IH.
  cbn. rewrite (right_id_L ∅ (∪)). apply (comm_L (∪)).
Qed.

Lemma RedirectsToMap_app_union (first second : list Redirect) :
  RedirectsToMap (first ++ second) = RedirectsToMap second ∪ RedirectsToMap first.
Proof.
  induction second as [|r second IH] using rev_ind.
  - rewrite app_nil_r. symmetry. apply (left_id_L ∅ (∪)).
  - rewrite app_assoc, !RedirectsToMap_snoc, IH. by rewrite insert_union_l.
Qed.

(** With pairwise distinct paths, the table holds a pair exactly when the
    sequence holds the record. *)
Lemma RedirectsToMap_lookup_distinct (redirects : list Redirect) (p u : string) :
  NoDup (Path <$> redirects) ->
  RedirectsToMap redirects !! p = Some u ↔ {| Path := p; URL := u |} ∈ redirects.
Proof.
  induction redirects as [|r redirects IH] using rev_ind; intros Hnodup.
  - change (RedirectsToMap []) with (∅ : gmap string string).
    rewrite lookup_empty. split; [done | by intros ?%elem_of_nil].
  - rewrite fmap_app in Hnodup. apply NoDup_app in Hnodup as (Hnodup & Hfresh & _).
    rewrite RedirectsToMap_snoc, elem_of_app, list_elem_of_singleton.
    destruct (decide (Path r = p)) as [<-|Hp].
    + rewrite lookup_insert_eq. split.
      * intros [= <-]. right. by destruct r.
      * intros [Hin | Heq]; [|by rewrite <- Heq].
        exfalso. apply (Hfresh (Path r)); [|cbn; left].
        by apply (list_elem_of_fmap_2 Path) in Hin.
    + rewrite lookup_insert_ne by done. rewrite IH by done.
      split; [by left|]. intros [Hin | Heq]; [done|].
      rewrite <- Heq in Hp. by destruct Hp.
Qed.

(** X1.  The keys of the table are exactly the paths of the records, and
    every entry of the table is a record of the sequence: the builder
    neither drops a path nor makes up a mapping. *)
Theorem RedirectsToMap_keys_and_entries (redirects : list Redirect) :
  dom (RedirectsToMap redirects) = list_to_set (Path <$> redirects)
  ∧ (∀ p u : string,
       RedirectsToMap redirects !! p = Some u ->
       {| Path := p; URL := u |} ∈ redirects).
Proof.
  split; [apply RedirectsToMap_dom|].
  intros p u. rewrite RedirectsToMap_lookup.
  destruct (last _) as [r|] eqn:Hlast; [|done].
  intros [= <-]. apply last_Some_elem_of, list_elem_of_filter in Hlast as [<- Hin].
  by destruct r.
Qed.

(** X2.  When the records have pairwise distinct paths, as in the test
    fixtures, the table maps the path of every record to that record's URL
    and has as many entries as there are records. *)
Theorem RedirectsToMap_distinct_paths (redirects : list Redirect) :
  NoDup (Path <$> redirects) ->
  (∀ r : Redirect, r ∈ redirects -> RedirectsToMap redirects !! Path r = Some (URL r))
  ∧ size (RedirectsToMap redirects) = length redirects.
Proof.
  intros Hnodup. split.
  - intros r Hin. apply (RedirectsToMap_lookup_distinct _ _ _ Hnodup). by destruct r.
  - induction redirects as [|r redirects IH] using rev_ind; [done|].
    rewrite fmap_app in Hnodup. apply NoDup_app in Hnodup as (Hnodup & Hfresh & _).
    assert (RedirectsToMap redirects !! Path r = None) as Hnew.
    { apply not_elem_of_dom. rewrite RedirectsToMap_dom, elem_of_list_to_set.
      intros Hin. apply (Hfresh _ Hin). cbn. left. }
    rewrite RedirectsToMap_snoc, map_size_insert_None, length_app, IH by done.
    cbn. lia.
Qed.

(** X3.  The table never has more entries than there are records. *)
Theorem RedirectsToMap_size_le (redirects : list Redirect) :
  (size (RedirectsToMap redirects) <= length redirects)%nat.
Proof.
  induction redirects as [|r redirects IH] using rev_ind; [done|].
  rewrite RedirectsToMap_snoc, length_app. cbn.
  destruct (RedirectsToMap redirects !! Path r) as [u|] eqn:Hlook.
  - rewrite map_size_insert_Some by done. lia.
  - rewrite map_size_insert_None by done. lia.
Qed.

(** X4.  Building from two sequences joined is the union of the two
    tables in which the second sequence's entries take precedence. *)
Theorem RedirectsToMap_app (first second : list Redirect) :
  RedirectsToMap (first ++ second) = RedirectsToMap second ∪ RedirectsToMap first
  ∧ (∀ p : string,
       RedirectsToMap (first ++ second) !! p
       = match RedirectsToMap second !! p with
         | Some u => Some u
         | None => RedirectsToMap first !! p
         end).
Proof.
  split; [apply RedirectsToMap_app_union|].
  intros p. rewrite RedirectsToMap_app_union, lookup_union.
  by destruct (RedirectsToMap second !! p), (RedirectsToMap first !! p).
Qed.

(** X5.  Feeding the whole sequence a second time changes nothing: every
    path keeps the URL of its last record. *)
Theorem RedirectsToMap_repeat (redirects : list Redirect) :
  RedirectsToMap (redirects ++ redirects) = RedirectsToMap redirects.
Proof. rewrite RedirectsToMap_app_union. apply (idemp_L (∪)). Qed.

(** X6.  With pairwise distinct paths the order of the records does not
    matter: a reordering of the sequence builds the same table. *)
Theorem RedirectsToMap_permutation (redirects reordered : list Redirect) :
  NoDup (Path <$> redirects) ->
  redirects ≡ₚ reordered ->
  RedirectsToMap redirects = RedirectsToMap reordered.
Proof.
  intros Hnodup Hperm. apply map_eq. intros p. apply option_eq. intros u.
  rewrite !RedirectsToMap_lookup_distinct; [by rewrite Hperm | | done].
  by rewrite <- Hperm.
Qed.

(** X7.  A record that a later record with the same path overwrites has no
    effect on the table: leaving it out builds the same table. *)
Theorem RedirectsToMap_shadowed (before after : list Redirect) (r later : Redirect) :
  later ∈ after ->
  Path later = Path r ->
  RedirectsToMap (before ++ r :: after) = RedirectsToMap (before ++ after).
Proof.
  intros Hin Hpath. apply map_eq. intros p.
  rewrite (RedirectsToMap_app_union before (r :: after)).
  rewrite (RedirectsToMap_app_union before after).
  change (r :: after) with ([r] ++ after)%list.
  rewrite (RedirectsToMap_app_union [r] after), !lookup_union.
  destruct (RedirectsToMap after !! p) as [u|] eqn:Hafter; [by destruct (_ !! p), (_ !! p)|].
  destruct (decide (p = Path r)) as [->|Hp].
  - apply not_elem_of_dom in Hafter. exfalso. apply Hafter.
    rewrite RedirectsToMap_dom, elem_of_list_to_set, <- Hpath.
    by apply list_elem_of_fmap_2.
  - unfold RedirectsToMap at 1. cbn. rewrite lookup_insert_ne by done.
    rewrite lookup_empty. by destruct (_ !! p).
Qed.

(** ** Handlers in a chain *)

(** X8.  A lookup handler whose fallback is a second lookup handler, as
    [Task1] builds them, answers like one lookup handler over the union of
    the two tables in which the outer table's entries take precedence. *)
Theorem MapHandler_chain {H : Type} `{!Handler H} (outer inner : gmap string string)
    (F : H) (w : ResponseWriter) (r : Request) :
  MapHandler outer (MapHandler inner F) w r = MapHandler (outer ∪ inner) F w r.
Proof.
  rewrite !MapHandler_unfold, lookup_union.
  destruct (outer !! _) as [url|]; [by destruct (inner !! _)|].
  unfold ServeHTTP, HandlerFunc_Handler. rewrite MapHandler_unfold.
  by destruct (inner !! _).
Qed.

(** ** The factories *)

Lemma MapHandler_serves_last_record {H : Type} `{!Handler H} (records : list Redirect)
    (F : H) :
  serves_last_record records F (MapHandler (RedirectsToMap records) F).
Proof.
  intros w r. rewrite MapHandler_unfold, RedirectsToMap_lookup.
  by destruct (last _).
Qed.

Section FactoryFacts.
Variable yaml_Unmarshal : bytes -> list Redirect -> list Redirect * option error.
Variable json_Unmarshal : bytes -> list Redirect -> list Redirect * option error.
Context {H : Type} `{!Handler H}.

(** X9.  Each of the three factories returns either a handler and the nil
    error, or the nil handler and an error: a caller that checks the error
    never holds a nil handler, whatever the decoders and the store do. *)
Theorem factories_handler_xor_error (buf : bytes) (ctx : context_Context)
    (r : RedirectoryDatabase) (F : H) :
  handler_xor_error (YamlHandler yaml_Unmarshal buf F)
  ∧ handler_xor_error (JsonHandler json_Unmarshal buf F)
  ∧ handler_xor_error (DbHandler ctx r F).
Proof.
  rewrite YamlHandler_unfold, JsonHandler_unfold, DbHandler_unfold.
  by destruct (ParseYaml _ _ _).2, (ParseJson _ _ _).2, (Find _ _ _ _).2.
Qed.

(** X10.  When the YAML decoder returns [records] without error,
    [YamlHandler] returns a handler that redirects a request to the URL of
    the last decoded record with the request's path, and calls the fallback
    when no decoded record has that path. *)
Theorem YamlHandler_serves_last_record (yml : bytes) (records : list Redirect) (F : H) :
  ParseYaml yaml_Unmarshal yml [] = (records, None) ->
  ∃ h : HandlerFunc,
    YamlHandler yaml_Unmarshal yml F = (Some h, None)
    ∧ serves_last_record records F h.
Proof.
  intros Hdecode. exists (MapHandler (RedirectsToMap records) F).
  split; [by rewrite YamlHandler_unfold, Hdecode|].
  apply MapHandler_serves_last_record.
Qed.

(** X11.  The same for [JsonHandler] and the JSON decoder. *)
Theorem JsonHandler_serves_last_record (jsn : bytes) (records : list Redirect) (F : H) :
  ParseJson json_Unmarshal jsn [] = (records, None) ->
  ∃ h : HandlerFunc,
    JsonHandler json_Unmarshal jsn F = (Some h, None)
    ∧ serves_last_record records F h.
Proof.
  intros Hdecode. exists (MapHandler (RedirectsToMap records) F).
  split; [by rewrite JsonHandler_unfold, Hdecode|].
  apply MapHandler_serves_last_record.
Qed.

(** X12.  On a record store that answers, [DbHandler] returns a handler
    that redirects a request to the URL of the last document of the
    collection with the request's path, and calls the fallback when no
    document has that path. *)
Theorem DbHandler_serves_last_record (ctx : context_Context) (r : RedirectoryDatabase)
    (F : H) :
  mongo.find_error (db r) = None ->
  mongo.read_error (db r) = None ->
  ∃ h : HandlerFunc,
    DbHandler ctx r F = (Some h, None)
    ∧ serves_last_record
        (default [] (mongo.collections (db r) !! redirectoryCollectionName)) F h.
Proof.
  intros Hfind Hread. eexists. split.
  - by rewrite DbHandler_unfold, (Find_all r ctx [] Hfind Hread).
  - apply MapHandler_serves_last_record.
Qed.

(** X13.  On a record store that answers and whose collection is missing
    or empty, [DbHandler] succeeds, and the handler it returns passes every
    request on to the fallback. *)
Theorem DbHandler_empty_store (ctx : context_Context) (r : RedirectoryDatabase) (F : H) :
  mongo.find_error (db r) = None ->
  mongo.read_error (db r) = None ->
  default [] (mongo.collections (db r) !! redirectoryCollectionName) = [] ->
  ∃ h : HandlerFunc,
    DbHandler ctx r F = (Some h, None)
    ∧ ∀ (w : ResponseWriter) (req : Request), h w req = ServeHTTP F w req.
Proof.
  intros Hfind Hread Hempty. eexists. split.
  - by rewrite DbHandler_unfold, (Find_all r ctx [] Hfind Hread), Hempty.
  - intros w req. by rewrite MapHandler_unfold.
Qed.
End FactoryFacts.

(** ** The conversion to a slice of interfaces, continued *)

Lemma RedirectsToArrayInterface_eq (redirects : list Redirect) :
  RedirectsToArrayInterface redirects = Some (iface_Redirect <$> redirects).
Proof. exact (range_assign_invariant redirects []). Qed.

(** X14.  [RedirectsToArrayInterface] loses nothing: two record lists with
    the same result are the same list. *)
Theorem RedirectsToArrayInterface_inj (redirects redirects' : list Redirect) :
  RedirectsToArrayInterface redirects = RedirectsToArrayInterface redirects' ->
  redirects = redirects'.
Proof.
  rewrite !RedirectsToArrayInterface_eq. intros [= Heq]. revert redirects' Heq.
  induction redirects as [|v redirects IH]; intros [|v' redirects'] Heq; try done.
  injection Heq as -> Heq. f_equal. by apply IH.
Qed.

(** X15.  Every nil entry [make] put in the slice is overwritten: the
    result holds a record at every index and no nil interface. *)
Theorem RedirectsToArrayInterface_no_nil (redirects : list Redirect) :
  ∃ s : list interface,
    RedirectsToArrayInterface redirects = Some s
    ∧ Forall (fun x => x ≠ iface_nil) s.
Proof.
  eexists. split; [apply RedirectsToArrayInterface_eq|].
  apply Forall_fmap, Forall_true. done.
Qed.

(** X16.  The assignment loop over a slice [s], started at index [i],
    ends without a panic exactly when there is nothing to assign or the
    slice reaches as far as the last index it writes; it does not change
    the length of the slice. *)
Theorem range_assign_bounds (redirects : list Redirect) (i : nat) (s : list interface) :
  (is_Some (range_assign i redirects s)
   ↔ redirects = [] ∨ (i + length redirects <= length s)%nat)
  ∧ (∀ s' : list interface, range_assign i redirects s = Some s' -> length s' = length s).
Proof.
  revert i s. induction redirects as [|v rest IH]; intros i s.
  - cbn. split; [split; [by left | by eexists] | by intros s' [= <-]].
  - cbn [range_assign length]. unfold index_assign.
    destruct (decide (i < length s)%nat) as [Hi|Hi].
    + destruct (IH (S i) (<[i := iface_Redirect v]> s)) as [Hsome Hlen].
      rewrite length_insert in Hsome. split.
      * rewrite Hsome. split.
        -- intros [-> | Hle]; right; cbn; lia.
        -- intros [? | Hle]; [done|]. destruct rest; [by left | right; cbn in *; lia].
      * intros s' Hs'. rewrite (Hlen s' Hs'). apply length_insert.
    + split; [|done]. split; [by intros [? ?]|].
      intros [? | Hle]; [done | lia].
Qed.

(** ** Reading the records from a file *)

(** X17.  [ParseYamlFile] returns to its caller in two cases only: the
    file could not be opened, and then the open error comes back and the
    records are as they were, nothing having been decoded; or the file was
    opened and closed without error, and then the decoder's records and
    error come back.  It ends the process exactly when the file was opened
    and [Close] failed, whatever the decoder had returned; the close error
    is never a return value. *)
Theorem ParseYamlFile_outcomes {File : Type} (os_Open : string -> error + File)
    (File_Close : File -> option error)
    (yaml_Decode : File -> list Redirect -> list Redirect * option error)
    (path : string) (v : list Redirect) :
  (∀ result : list Redirect * option error,
     ParseYamlFile os_Open File_Close yaml_Decode path v = Returns result
     ↔ (∃ e, os_Open path = inl e ∧ result = (v, Some e))
       ∨ (∃ f, os_Open path = inr f ∧ File_Close f = None ∧ result = yaml_Decode f v))
  ∧ (∀ e : error,
       ParseYamlFile os_Open File_Close yaml_Decode path v = Fatal e
       ↔ ∃ f, os_Open path = inr f ∧ File_Close f = Some e).
Proof.
  unfold ParseYamlFile.
  destruct (os_Open path) as [e0|f].
  - split.
    + intros result. split.
      * intros [= <-]. left. by exists e0.
      * intros [(e & [= <-] & ->) | (f & [=] & _)]. done.
    + intros e. split; [done | by intros (f & [=] & _)].
  - destruct (yaml_Decode f v) as [v' err] eqn:Hdecode.
    destruct (File_Close f) as [e1|] eqn:Hclose.
    + split.
      * intros result. split; [done|].
        intros [(e & [=] & _) | (f' & [= <-] & Hnone & _)]. congruence.
      * intros e. split.
        -- intros [= <-]. by exists f.
        -- intros (f' & [= <-] & Hsome). congruence.
    + split.
      * intros result. split.
        -- intros [= <-]. right. exists f. by rewrite Hdecode.
        -- intros [(e & [=] & _) | (f' & [= <-] & _ & ->)]. by rewrite Hdecode.
      * intros e. split; [done|]. intros (f' & [= <-] & Hsome). congruence.
Qed.

(** ** The further properties at the inputs of the test file *)

Lemma testRedirects_distinct_paths : NoDup (Path <$> testRedirects).
Proof. apply (bool_decide_unpack _). vm_compute. exact I. Defined.

Lemma RedirectsToMap_distinct_paths_witness :
  NoDup (Path <$> testRedirects)
  ∧ (∀ r : Redirect,
       r ∈ testRedirects -> RedirectsToMap testRedirects !! Path r = Some (URL r))
  ∧ size (RedirectsToMap testRedirects) = length testRedirects.
Proof.
  split; [exact testRedirects_distinct_paths|].
  exact (RedirectsToMap_distinct_paths testRedirects testRedirects_distinct_paths).
Defined.

Lemma RedirectsToMap_permutation_witness :
  NoDup (Path <$> testRedirects)
  ∧ testRedirects ≡ₚ rev testRedirects
  ∧ RedirectsToMap testRedirects = RedirectsToMap (rev testRedirects).
Proof.
  assert (testRedirects ≡ₚ rev testRedirects) as Hperm by apply perm_swap.
  split; [exact testRedirects_distinct_paths|].
  split; [exact Hperm|].
  exact (RedirectsToMap_permutation testRedirects (rev testRedirects)
           testRedirects_distinct_paths Hperm).
Defined.

Lemma RedirectsToMap_shadowed_witness :
  {| Path := "/a"; URL := "/y" |} ∈ [ {| Path := "/a"; URL := "/y" |} ]
  ∧ Path {| Path := "/a"; URL := "/y" |} = Path {| Path := "/a"; URL := "/x" |}
  ∧ RedirectsToMap ([] ++ {| Path := "/a"; URL := "/x" |}
                       :: [ {| Path := "/a"; URL := "/y" |} ])
    = RedirectsToMap ([] ++ [ {| Path := "/a"; URL := "/y" |} ]).
Proof.
  assert ({| Path := "/a"; URL := "/y" |} ∈ [ {| Path := "/a"; URL := "/y" |} ]) as Hin
    by left.
  split; [exact Hin|].
  split; [reflexivity|].
  exact (RedirectsToMap_shadowed [] [ {| Path := "/a"; URL := "/y" |} ]
           {| Path := "/a"; URL := "/x" |} {| Path := "/a"; URL := "/y" |} Hin eq_refl).
Defined.

Lemma YamlHandler_serves_last_record_witness :
  ParseYaml test_yaml_Unmarshal (bytes_of testYaml) [] = (testRedirects, None)
  ∧ ∃ h : HandlerFunc,
      YamlHandler test_yaml_Unmarshal (bytes_of testYaml) fallbackHandler = (Some h, None)
      ∧ serves_last_record testRedirects fallbackHandler h.
Proof.
  assert (ParseYaml test_yaml_Unmarshal (bytes_of testYaml) [] = (testRedirects, None))
    as Hdecode by (vm_compute; reflexivity).
  split; [exact Hdecode|].
  exact (YamlHandler_serves_last_record test_yaml_Unmarshal (bytes_of testYaml)
           testRedirects fallbackHandler Hdecode).
Defined.

Lemma JsonHandler_serves_last_record_witness :
  ParseJson test_json_Unmarshal (bytes_of testJson) [] = (testRedirects, None)
  ∧ ∃ h : HandlerFunc,
      JsonHandler test_json_Unmarshal (bytes_of testJson) fallbackHandler = (Some h, None)
      ∧ serves_last_record testRedirects fallbackHandler h.
Proof.
  assert (ParseJson test_json_Unmarshal (bytes_of testJson) [] = (testRedirects, None))
    as Hdecode by (vm_compute; reflexivity).
  split; [exact Hdecode|].
  exact (JsonHandler_serves_last_record test_json_Unmarshal (bytes_of testJson)
           testRedirects fallbackHandler Hdecode).
Defined.

Lemma DbHandler_serves_last_record_witness :
  mongo.find_error (db store_at_build) = None
  ∧ mongo.read_error (db store_at_build) = None
  ∧ ∃ h : HandlerFunc,
      DbHandler task4Context store_at_build fallbackHandler = (Some h, None)
      ∧ serves_last_record
          (default [] (mongo.collections (db store_at_build) !! redirectoryCollectionName))
          fallbackHandler h.
Proof.
  split; [reflexivity|].
  split; [reflexivity|].
  exact (DbHandler_serves_last_record task4Context store_at_build fallbackHandler
           eq_refl eq_refl).
Defined.

Lemma DbHandler_empty_store_witness :
  mongo.find_error (db store_empty) = None
  ∧ mongo.read_error (db store_empty) = None
  ∧ default [] (mongo.collections (db store_empty) !! redirectoryCollectionName) = []
  ∧ ∃ h : HandlerFunc,
      DbHandler task4Context store_empty fallbackHandler = (Some h, None)
      ∧ ∀ (w : ResponseWriter) (req : Request),
          h w req = ServeHTTP fallbackHandler w req.
Proof.
  split; [reflexivity|].
  split; [reflexivity|].
  split; [reflexivity|].
  exact (DbHandler_empty_store task4Context store_empty fallbackHandler
           eq_refl eq_refl eq_refl).
Defined.

Lemma RedirectsToArrayInterface_inj_witness :
  RedirectsToArrayInterface testRedirects
  = RedirectsToArrayInterface (rev (rev testRedirects))
  ∧ testRedirects = rev (rev testRedirects).
Proof.
  split; [reflexivity|].
  exact (RedirectsToArrayInterface_inj testRedirects (rev (rev testRedirects)) eq_refl).
Defined.
